(** * CoreNumeric: generic numeric algorithms over sequences and argument packs

    A shallow embedding of [core_numeric.h]: the four concepts become type
    classes, the container algorithms become functions over [list T] (the
    range-for loops are [fold_left]s in iteration order), and the variadic
    algorithms take their parameter pack as a list.  Division by the element
    count is the only operation that can fault, so the functions that divide
    return [option T]. *)

From Stdlib Require Import List ZArith NArith Bool Lia Permutation Floats Uint63.
Import ListNotations.

(** ** Concepts *)

(** [T{}]: value-initialisation of the element type. *)
Class ValueInit (T : Type) := value_init : T.

(** [Addable]: [a + b] is well-formed and has type [T]. *)
Class Addable (T : Type) := add : T -> T -> T.

(** [a / n] with [n : std::size_t] has type [R]; [None] is a runtime fault
    (integer division by zero). *)
Class CountDiv (T R : Type) := count_div : T -> N -> option R.

(** [Divisible]: [a / n] has exactly type [T]. *)
Abbreviation Divisible T := (CountDiv T T).

(** [Comparable]: [a > b] converts to [bool]. *)
Class Comparable (T : Type) := gt : T -> T -> bool.

(** What [variance] needs beyond the concepts: [valor - promedio], and the
    squaring selected by [if constexpr (std::is_integral_v<T>)].  Only the
    selected branch is instantiated, so only its operation has to exist. *)
Inductive squaring (T : Type) : Type :=
| integral_mul (mul : T -> T -> T)
| generic_pow (pow2 : T -> T).

Arguments integral_mul {T} mul.
Arguments generic_pow {T} pow2.

Class Deviation (T : Type) := {
  sub : T -> T -> T;
  square_by : squaring T
}.

Definition bind {A B : Type} (m : option A) (k : A -> option B) : option B :=
  match m with
  | Some a => k a
  | None => None
  end.

Notation "x <- m ;; k" := (bind m (fun x => k))
  (at level 61, m at next level, right associativity).

(** ** The algorithms *)

Module core_numeric.

Section Algorithms.
Context {T : Type}.

(** [std::size(contenedor)] *)
Definition size (contenedor : list T) : N := N.of_nat (length contenedor).

Definition sum `{ValueInit T, Addable T} (contenedor : list T) : T :=
  fold_left (fun resultado valor => add resultado valor)
            contenedor value_init.

Definition mean `{ValueInit T, Addable T, Divisible T}
    (contenedor : list T) : option T :=
  let suma_total := sum contenedor in
  let n := size contenedor in
  if (n =? 0)%N then Some value_init
  else count_div suma_total n.

(** The accumulation loop of [variance], for either squaring. *)
Definition squared_deviation `{Deviation T} (promedio valor : T) : T :=
  let diff := sub valor promedio in
  match square_by with
  | integral_mul mul => mul diff diff
  | generic_pow pow2 => pow2 diff
  end.

Definition variance `{ValueInit T, Addable T, Divisible T, Deviation T}
    (contenedor : list T) : option T :=
  promedio <- mean contenedor ;;
  let acumulador :=
    fold_left (fun acumulador valor =>
                 add acumulador (squared_deviation promedio valor))
              contenedor value_init in
  let n := size contenedor in
  if (n =? 0)%N then Some value_init
  else count_div acumulador n.

(** The body of the scan of [max]: the running maximum is replaced when the
  visited element compares strictly greater. *)
Definition max_step `{Comparable T} (maximo valor : T) : T :=
  if gt valor maximo then valor else maximo.

Definition max `{ValueInit T, Comparable T} (contenedor : list T) : T :=
  match contenedor with
  | [] => value_init
  | primero :: resto => fold_left max_step resto primero
  end.

Definition transform_reduce `{ValueInit T, Addable T}
    (contenedor : list T) (funcion : T -> T) : T :=
  fold_left (fun resultado valor => add resultado (funcion valor))
            contenedor value_init.

(** [(... + args)]: a unary left fold, [((a1 + a2) + a3) + ...].  It is
    ill-formed for an empty pack, which is [None] here. *)
Definition sum_variadic `{Addable T} (args : list T) : option T :=
  match args with
  | [] => None
  | a1 :: rest => Some (fold_left add rest a1)
  end.

(** [suma / sizeof...(args)]; the quotient has whatever type [/] gives. *)
Definition mean_variadic {R : Type} `{Addable T, CountDiv T R}
    (args : list T) : option R :=
  suma <- sum_variadic args ;;
  count_div suma (size args).

(** [std::vector<T> temp_vec{first, args...}] *)
Definition temp_vec (first : T) (args : list T) : list T := first :: args.

Definition variance_variadic `{ValueInit T, Addable T, Divisible T, Deviation T}
    (first : T) (args : list T) : option T :=
  variance (temp_vec first args).

Definition max_aux `{Comparable T} (a b : T) : T :=
  if gt a b then a else b.

(** [((max_val = max_aux(max_val, rest)), ...)]: a comma fold, evaluated
    left to right over the pack. *)
Definition max_variadic `{Comparable T} (first : T) (rest : list T) : T :=
  fold_left (fun max_val r => max_aux max_val r) rest first.

End Algorithms.

End core_numeric.

Import core_numeric.

(** ** Element types *)

(** [unsigned long] (which is [std::size_t] on LP64): the integral type for
  which [a / n] has type [T], so the one [mean] and [variance] accept.
  Values are integers in [0, 2^64); arithmetic wraps around. *)
Module U64.

Definition modulus : Z := 2 ^ 64.

Definition wrap (z : Z) : Z := z mod modulus.

Definition in_range (z : Z) : Prop := (0 <= z < modulus)%Z.

Definition uadd (a b : Z) : Z := wrap (a + b).
Definition usub (a b : Z) : Z := wrap (a - b).
Definition umul (a b : Z) : Z := wrap (a * b).

(** Unsigned division truncates; dividing by zero is a fault. *)
Definition udiv (a : Z) (n : N) : option Z :=
  if (n =? 0)%N then None else Some (a ÷ Z.of_N n)%Z.

Definition ugt (a b : Z) : bool := (a >? b)%Z.

End U64.

#[export] Instance Z_ValueInit : ValueInit Z := 0%Z.
#[export] Instance Z_Addable : Addable Z := U64.uadd.
#[export] Instance Z_Divisible : Divisible Z := U64.udiv.
#[export] Instance Z_Comparable : Comparable Z := U64.ugt.
#[export] Instance Z_Deviation : Deviation Z :=
  {| sub := U64.usub; square_by := integral_mul U64.umul |}.

(** [double]: IEEE 754 binary64, round to nearest even. *)
Module Double.

(** Conversion of the element count to [double]. *)
Definition of_count (n : N) : float :=
  PrimFloat.of_uint63 (Uint63.of_Z (Z.of_N n)).

(** Floating-point division never faults. *)
Definition fdiv (a : float) (n : N) : option float :=
  Some (PrimFloat.div a (of_count n)).

(** [a > b] *)
Definition fgt (a b : float) : bool := PrimFloat.ltb b a.

(** [std::pow(diff, 2)], taken as the correctly rounded square [d * d].
    A library [pow] that is not correctly rounded can differ from it in the
    last place; no result below depends on that place. *)
Definition fpow2 (d : float) : float := PrimFloat.mul d d.

End Double.

#[export] Instance float_ValueInit : ValueInit float := PrimFloat.zero.
#[export] Instance float_Addable : Addable float := PrimFloat.add.
#[export] Instance float_Divisible : Divisible float := Double.fdiv.
#[export] Instance float_Comparable : Comparable float := Double.fgt.
#[export] Instance float_Deviation : Deviation float :=
  {| sub := PrimFloat.sub; square_by := generic_pow Double.fpow2 |}.

(** [Vector3D] of test.cpp: addable, divisible and comparable (by squared
  magnitude).  [std::pow] has no overload for it, so it has no [Deviation]
  instance and [variance] does not accept it. *)
Record Vector3D : Type := mkVector3D { vx : float; vy : float; vz : float }.

Module Vec.

Definition vadd (a otro : Vector3D) : Vector3D :=
  mkVector3D (vx a + vx otro) (vy a + vy otro) (vz a + vz otro).

Definition vdiv (a : Vector3D) (n : N) : option Vector3D :=
  Some (mkVector3D (vx a / Double.of_count n)
                   (vy a / Double.of_count n)
                   (vz a / Double.of_count n)).

Definition magnitude2 (a : Vector3D) : float :=
  (vx a * vx a + vy a * vy a + vz a * vz a)%float.

Definition vgt (a otro : Vector3D) : bool :=
  PrimFloat.ltb (magnitude2 otro) (magnitude2 a).

End Vec.

#[export] Instance Vector3D_ValueInit : ValueInit Vector3D :=
  mkVector3D 0 0 0.
#[export] Instance Vector3D_Addable : Addable Vector3D := Vec.vadd.
#[export] Instance Vector3D_Divisible : Divisible Vector3D := Vec.vdiv.
#[export] Instance Vector3D_Comparable : Comparable Vector3D := Vec.vgt.

(** [int]: addable and comparable.  [a / n] converts [a] to [std::size_t]
  and has that type, so [int] is not [Divisible] and [mean] and [variance]
  reject it; [mean_variadic], which is unconstrained, returns the unsigned
  quotient.  Addition is taken in two's complement. *)
Record Int : Type := mkInt { int_val : Z }.

Module I32.

Definition wrap (z : Z) : Z := ((z + 2 ^ 31) mod 2 ^ 32 - 2 ^ 31)%Z.

Definition iadd (a b : Int) : Int := mkInt (wrap (int_val a + int_val b)).

Definition igt (a b : Int) : bool := (int_val a >? int_val b)%Z.

(** The usual arithmetic conversions take the [int] to [unsigned long]. *)
Definition idiv (a : Int) (n : N) : option Z :=
  U64.udiv (U64.wrap (int_val a)) n.

End I32.

#[export] Instance Int_ValueInit : ValueInit Int := mkInt 0.
#[export] Instance Int_Addable : Addable Int := I32.iadd.
#[export] Instance Int_Comparable : Comparable Int := I32.igt.
#[export] Instance Int_CountDiv : CountDiv Int Z := I32.idiv.

(** ** Specification-side notions *)

Section SpecNotions.
Context {T : Type}.

(** The right-associated sum [a1 + (a2 + (... + an))]. *)
Fixpoint right_fold_sum `{Addable T} (a1 : T) (rest : list T) : T :=
  match rest with
  | [] => a1
  | a2 :: rest' => add a1 (right_fold_sum a2 rest')
  end.

(** [x] is maximal in [l]: no element of [l] compares strictly greater. *)
Definition maximal `{Comparable T} (l : list T) (x : T) : Prop :=
  forall y, In y l -> gt y x = false.

(** Neither of [a], [b] compares strictly greater than the other. *)
Definition tied `{Comparable T} (a b : T) : Prop :=
  gt a b = false /\ gt b a = false.

(** The two passes of [variance] written with [sum]: the mean, then the
  mean of the squared deviations. *)
Definition two_pass_variance `{ValueInit T, Addable T, Divisible T, Deviation T}
    (l : list T) : option T :=
  promedio <- count_div (sum l) (size l) ;;
  count_div (sum (map (squared_deviation promedio) l)) (size l).

End SpecNotions.

(** ** The runs of test.cpp and of the documented examples *)

Example test_double_sum :
  sum [1; 2; 3; 4; 5]%float = 15%float.
Proof. reflexivity. Qed.

Example test_double_mean :
  mean [1; 2; 3; 4; 5]%float = Some 3%float.
Proof. reflexivity. Qed.

Example test_double_variance :
  variance [1; 2; 3; 4; 5]%float = Some 2%float.
Proof. reflexivity. Qed.

Example test_double_max :
  max [1; 2; 3; 4; 5]%float = 5%float.
Proof. reflexivity. Qed.

Example test_vector_max :
  max [mkVector3D 1 1 1; mkVector3D 2 2 2; mkVector3D 0 5 0]
  = mkVector3D 0 5 0.
Proof. reflexivity. Qed.

Example test_sum_variadic :
  sum_variadic [mkInt 1; mkInt 2; mkInt 3; mkInt 4] = Some (mkInt 10).
Proof. reflexivity. Qed.

Example test_mean_variadic :
  mean_variadic [1; 2; 3]%float = Some 2%float.
Proof. reflexivity. Qed.

Example test_max_variadic :
  max_variadic (mkInt 10) [mkInt 5; mkInt 20; mkInt 1] = mkInt 20.
Proof. reflexivity. Qed.

Example test_transform_reduce :
  transform_reduce [1; 2; 3; 4; 5]%float (fun x => x * x)%float = 55%float.
Proof. reflexivity. Qed.

Example test_int_max :
  max (map mkInt [3; 1; 4; 1; 5; 9; 2; 6]%Z) = mkInt 9.
Proof. reflexivity. Qed.

(** ** Properties that hold for every element type *)

Section Generic.
Context {T : Type}.
Context `{VI : ValueInit T, AD : Addable T, DV : Divisible T,
          CM : Comparable T, DE : Deviation T}.

(** *** The accumulation loops *)

Lemma fold_add_map (f : T -> T) (l : list T) (acc : T) :
  fold_left (fun resultado valor => add resultado (f valor)) l acc
  = fold_left (fun resultado valor => add resultado valor) (map f l) acc.
Proof.
  revert acc.
  induction l as [| v l IH]; intros acc; simpl.
  - reflexivity.
  - apply IH.
Qed.

Lemma size_cons_nonzero (v : T) (l : list T) : (size (v :: l) =? 0)%N = false.
Proof.
  unfold size. simpl length.
  apply N.eqb_neq. lia.
Qed.

Lemma size_nonempty (l : list T) : l <> [] -> (size l =? 0)%N = false.
Proof.
  destruct l as [| v l]; intros Hne.
  - contradiction.
  - apply size_cons_nonzero.
Qed.

Lemma mean_nonempty (l : list T) :
  l <> [] -> mean l = count_div (sum l) (size l).
Proof.
  intros Hne.
  unfold mean.
  rewrite (size_nonempty l Hne).
  reflexivity.
Qed.

Lemma variance_two_pass (l : list T) :
  l <> [] -> variance l = two_pass_variance l.
Proof.
  intros Hne.
  unfold variance, two_pass_variance.
  rewrite (mean_nonempty l Hne), (size_nonempty l Hne).
  destruct (count_div (sum l) (size l)) as [promedio |]; simpl.
  - rewrite fold_add_map. reflexivity.
  - reflexivity.
Qed.

(** *** The scans of [max] and [max_variadic] *)

Lemma max_cons (primero : T) (resto : list T) :
  max (primero :: resto) = fold_left max_step resto primero.
Proof. reflexivity. Qed.

Lemma max_variadic_fold (first : T) (rest : list T) :
  max_variadic first rest = fold_left max_aux rest first.
Proof. reflexivity. Qed.

(** A scan whose step returns one of its two arguments ends on its seed or
    on an element it visited. *)
Lemma scan_choice (step : T -> T -> T) :
  (forall m v, step m v = m \/ step m v = v) ->
  forall (l : list T) (m : T),
    fold_left step l m = m \/ In (fold_left step l m) l.
Proof.
  intros Hstep l.
  induction l as [| v l IH]; intros m; simpl.
  - left. reflexivity.
  - destruct (IH (step m v)) as [Heq | Hin].
    + rewrite Heq.
      destruct (Hstep m v) as [Hm | Hv].
      * left. exact Hm.
      * right. left. symmetry. exact Hv.
    + right. right. exact Hin.
Qed.

Lemma max_step_choice (m v : T) : max_step m v = m \/ max_step m v = v.
Proof.
  unfold max_step. destruct (gt v m); [right | left]; reflexivity.
Qed.

Lemma max_aux_choice (a b : T) : max_aux a b = a \/ max_aux a b = b.
Proof.
  unfold max_aux. destruct (gt a b); [left | right]; reflexivity.
Qed.

(** Any property shared by the seed and by every visited element holds of
    the scan's result. *)
Lemma scan_invariant (step : T -> T -> T) (P : T -> Prop) :
  (forall m v, step m v = m \/ step m v = v) ->
  forall (l : list T) (m : T),
    P m -> Forall P l -> P (fold_left step l m).
Proof.
  intros Hstep l m Hm Hl.
  destruct (scan_choice step Hstep l m) as [Heq | Hin].
  - rewrite Heq. exact Hm.
  - rewrite Forall_forall in Hl. apply Hl. exact Hin.
Qed.

Lemma max_in_sequence (l : list T) : l <> [] -> In (max l) l.
Proof.
  destruct l as [| primero resto]; intros Hne.
  - contradiction.
  - rewrite max_cons.
    destruct (scan_choice max_step max_step_choice resto primero)
      as [Heq | Hin].
    + left. symmetry. exact Heq.
    + right. exact Hin.
Qed.

Lemma max_variadic_in_arguments (first : T) (rest : list T) :
  In (max_variadic first rest) (first :: rest).
Proof.
  rewrite max_variadic_fold.
  destruct (scan_choice max_aux max_aux_choice rest first) as [Heq | Hin].
  - left. symmetry. exact Heq.
  - right. exact Hin.
Qed.

(** [max] keeps a running maximum that no later element exceeds. *)
Lemma max_scan_keeps (x : T) (l2 : list T) :
  Forall (fun y => gt y x = false) l2 -> fold_left max_step l2 x = x.
Proof.
  induction 1 as [| y l2 Hy _ IH]; simpl.
  - reflexivity.
  - unfold max_step at 2. rewrite Hy. exact IH.
Qed.

(** [max_variadic] keeps a running maximum only while it strictly exceeds
    every later argument. *)
Lemma max_variadic_scan_keeps (x : T) (l2 : list T) :
  Forall (fun y => gt x y = true) l2 -> fold_left max_aux l2 x = x.
Proof.
  induction 1 as [| y l2 Hy _ IH]; simpl.
  - reflexivity.
  - unfold max_aux at 2. rewrite Hy. exact IH.
Qed.

Lemma max_scan_selects (l1 l2 : list T) (x : T) :
  Forall (fun y => gt x y = true) l1 ->
  Forall (fun y => gt y x = false) l2 ->
  max (l1 ++ x :: l2) = x.
Proof.
  intros H1 H2.
  destruct l1 as [| a l1].
  - simpl app. rewrite max_cons. apply max_scan_keeps. exact H2.
  - rewrite <- app_comm_cons, max_cons, fold_left_app. simpl.
    inversion H1 as [| ? ? Ha H1' ]; subst.
    assert (Hbelow : gt x (fold_left max_step l1 a) = true).
    { apply (scan_invariant max_step (fun y => gt x y = true) max_step_choice);
        assumption. }
    unfold max_step at 2. rewrite Hbelow.
    apply max_scan_keeps. exact H2.
Qed.

Lemma max_variadic_scan_selects (first : T) (rest l1 l2 : list T) (x : T) :
  first :: rest = l1 ++ x :: l2 ->
  Forall (fun y => gt y x = false) l1 ->
  Forall (fun y => gt x y = true) l2 ->
  max_variadic first rest = x.
Proof.
  intros Hsplit H1 H2.
  rewrite max_variadic_fold.
  destruct l1 as [| a l1].
  - simpl in Hsplit. injection Hsplit as -> ->.
    apply max_variadic_scan_keeps. exact H2.
  - rewrite <- app_comm_cons in Hsplit. injection Hsplit as -> ->.
    rewrite fold_left_app. simpl.
    inversion H1 as [| ? ? Ha H1' ]; subst.
    assert (Hnot : gt (fold_left max_aux l1 a) x = false).
    { apply (scan_invariant max_aux (fun y => gt y x = false) max_aux_choice);
        assumption. }
    unfold max_aux at 2. rewrite Hnot.
    apply max_variadic_scan_keeps. exact H2.
Qed.

(** *** Ties in terms of maximal elements

    When [>] is a strict weak order, the element selected above is the
    earliest maximal element for [max] and the latest one for
    [max_variadic]. *)

Section WeakOrder.
Hypothesis gt_negatively_transitive :
  forall a b c : T, gt a b = true -> gt a c = true \/ gt c b = true.

Lemma not_maximal_exceeded (l : list T) (y : T) :
  ~ maximal l y -> exists z, In z l /\ gt z y = true.
Proof.
  unfold maximal.
  induction l as [| a l IH]; intros Hnot.
  - exfalso. apply Hnot. intros z [].
  - destruct (gt a y) eqn:Hay.
    + exists a. split; [left; reflexivity | exact Hay].
    + destruct IH as [z [Hz Hzy]].
      * intros Hall. apply Hnot.
        intros z [<- | Hz]; [exact Hay | apply Hall; exact Hz].
      * exists z. split; [right; exact Hz | exact Hzy].
Qed.

Lemma maximal_exceeds_non_maximal (l : list T) (x y : T) :
  maximal l x -> ~ maximal l y -> gt x y = true.
Proof.
  intros Hx Hy.
  destruct (not_maximal_exceeded l y Hy) as [z [Hz Hzy]].
  destruct (gt_negatively_transitive z y x Hzy) as [Hzx | Hxy].
  - rewrite (Hx z Hz) in Hzx. discriminate Hzx.
  - exact Hxy.
Qed.

Lemma max_returns_earliest_maximal (l1 l2 : list T) (x : T) :
  maximal (l1 ++ x :: l2) x ->
  (forall y, In y l1 -> ~ maximal (l1 ++ x :: l2) y) ->
  max (l1 ++ x :: l2) = x.
Proof.
  intros Hx Hearlier.
  apply max_scan_selects.
  - apply Forall_forall. intros y Hy.
    apply (maximal_exceeds_non_maximal (l1 ++ x :: l2)); auto.
  - apply Forall_forall. intros y Hy.
    apply Hx. apply in_or_app. right. right. exact Hy.
Qed.

Lemma max_variadic_returns_latest_maximal
    (first : T) (rest l1 l2 : list T) (x : T) :
  first :: rest = l1 ++ x :: l2 ->
  maximal (first :: rest) x ->
  (forall y, In y l2 -> ~ maximal (first :: rest) y) ->
  max_variadic first rest = x.
Proof.
  intros Hsplit Hx Hlater.
  apply (max_variadic_scan_selects first rest l1 l2 x Hsplit).
  - apply Forall_forall. intros y Hy.
    apply Hx. rewrite Hsplit. apply in_or_app. left. exact Hy.
  - apply Forall_forall. intros y Hy.
    apply (maximal_exceeds_non_maximal (first :: rest)); auto.
Qed.

End WeakOrder.

(** *** A constant sequence leaves the accumulator of [variance] untouched *)

Lemma constant_accumulation (x promedio : T) (n : nat) :
  squared_deviation promedio x = value_init ->
  add value_init value_init = value_init ->
  fold_left (fun acumulador valor =>
               add acumulador (squared_deviation promedio valor))
            (repeat x n) value_init
  = value_init.
Proof.
  intros Hdev Hzero.
  induction n as [| n IH]; simpl.
  - reflexivity.
  - rewrite Hdev, Hzero. exact IH.
Qed.

Lemma size_repeat (x : T) (n : nat) : size (repeat x n) = N.of_nat n.
Proof. unfold size. rewrite repeat_length. reflexivity. Qed.

Lemma variance_of_repeat (x promedio : T) (n : nat) :
  mean (repeat x n) = Some promedio ->
  variance (repeat x n)
  = if (N.of_nat n =? 0)%N then Some value_init
    else count_div
           (fold_left (fun acumulador valor =>
                         add acumulador (squared_deviation promedio valor))
                      (repeat x n) value_init)
           (N.of_nat n).
Proof.
  intros Hmean.
  unfold variance.
  rewrite Hmean, size_repeat.
  reflexivity.
Qed.

(** *** The claims *)

(** How the two scans break ties.  [max] returns the element that compares
    strictly greater than every earlier element and that no later element
    exceeds.  [max_variadic] returns the argument that no earlier argument
    exceeds and that compares strictly greater than every later argument,
    because [max_aux] keeps the running maximum only when it is strictly
    greater. *)
Theorem max_tie_breaking :
  (forall (l1 l2 : list T) (x : T),
      Forall (fun y => gt x y = true) l1 ->
      Forall (fun y => gt y x = false) l2 ->
      max (l1 ++ x :: l2) = x)
  /\
  (forall (first : T) (rest l1 l2 : list T) (x : T),
      first :: rest = l1 ++ x :: l2 ->
      Forall (fun y => gt y x = false) l1 ->
      Forall (fun y => gt x y = true) l2 ->
      max_variadic first rest = x).
Proof.
  split.
  - exact max_scan_selects.
  - exact max_variadic_scan_selects.
Qed.

(** C3.  On the empty sequence [sum], [mean], [variance] and [max] return
    the value-initialised element; [mean] and [variance] return it without
    reaching their division, whatever the division of the element type
    does. *)
Theorem empty_sequence_defaults :
  sum (@nil T) = value_init
  /\ mean (@nil T) = Some value_init
  /\ variance (@nil T) = Some value_init
  /\ max (@nil T) = value_init.
Proof.
  split; [reflexivity |].
  split; [reflexivity |].
  split; reflexivity.
Qed.

(** C4.  On a non-empty sequence [mean] is [sum] divided by the element
    count. *)
Theorem mean_is_sum_over_count (l : list T) :
  l <> [] -> mean l = count_div (sum l) (size l).
Proof.
  intros Hne. apply mean_nonempty. exact Hne.
Qed.

(** C5.  [variance_variadic] is the container [variance] applied to the
    sequence of its arguments in order, hence the same two passes. *)
Theorem variance_variadic_delegates (first : T) (rest : list T) :
  variance_variadic first rest = variance (first :: rest)
  /\ variance_variadic first rest = two_pass_variance (first :: rest).
Proof.
  split.
  - reflexivity.
  - unfold variance_variadic, temp_vec.
    apply variance_two_pass. discriminate.
Qed.

(** C7 (as amended).  For a non-empty constant sequence whose computed mean
    is exactly the common element, and an element type in which the squared
    deviation of an element from itself, [0 + 0] and [0 / n] are the
    value-initialised element, [variance] returns that element. *)
Theorem variance_constant_sequence (x : T) (n : nat) :
  n <> 0%nat ->
  mean (repeat x n) = Some x ->
  squared_deviation x x = value_init ->
  add value_init value_init = value_init ->
  count_div value_init (N.of_nat n) = Some value_init ->
  variance (repeat x n) = Some value_init.
Proof.
  intros Hn Hmean Hdev Hzero Hdiv.
  rewrite (variance_of_repeat x x n Hmean), (constant_accumulation x x n Hdev Hzero).
  destruct (N.eqb_spec (N.of_nat n) 0) as [H0 | _].
  - lia.
  - exact Hdiv.
Qed.

(** C8.  [transform_reduce] is [sum] of the mapped sequence: the left fold
    of the addition, seeded with the value-initialised element, over the
    images in iteration order. *)
Theorem transform_reduce_is_sum_of_map (l : list T) (f : T -> T) :
  transform_reduce l f = sum (map f l)
  /\ transform_reduce l f = fold_left add (map f l) value_init.
Proof.
  split; unfold transform_reduce, sum; apply fold_add_map.
Qed.

(** C10.  The result of [max] on a non-empty sequence is one of its
    elements, and the result of [max_variadic] is one of its arguments. *)
Theorem max_result_is_member :
  (forall l : list T, l <> [] -> In (max l) l)
  /\ (forall (first : T) (rest : list T),
        In (max_variadic first rest) (first :: rest)).
Proof.
  split.
  - exact max_in_sequence.
  - exact max_variadic_in_arguments.
Qed.

End Generic.

(** ** Unsigned integral elements *)

Section Unsigned.
Local Open Scope Z_scope.

Lemma wrap_add_l (a b : Z) : U64.wrap (U64.wrap a + b) = U64.wrap (a + b).
Proof.
  unfold U64.wrap. apply Zplus_mod_idemp_l.
Qed.

Lemma wrap_range (z : Z) : U64.in_range (U64.wrap z).
Proof.
  unfold U64.in_range, U64.wrap.
  apply Z.mod_pos_bound. reflexivity.
Qed.

Lemma wrap_small (z : Z) : U64.in_range z -> U64.wrap z = z.
Proof.
  unfold U64.in_range, U64.wrap. intros Hz.
  apply Z.mod_small. exact Hz.
Qed.

(** The wrapped running total is the wrapped exact total. *)
Lemma fold_uadd (l : list Z) (acc : Z) :
  fold_left U64.uadd l (U64.wrap acc)
  = U64.wrap (acc + fold_right Z.add 0 l).
Proof.
  revert acc.
  induction l as [| v l IH]; intros acc; simpl.
  - rewrite Z.add_0_r. reflexivity.
  - unfold U64.uadd at 2. rewrite wrap_add_l, IH.
    f_equal. lia.
Qed.

Lemma sum_exact_total (l : list Z) :
  sum l = U64.wrap (fold_right Z.add 0 l).
Proof.
  unfold sum.
  change (@value_init Z _) with (U64.wrap 0).
  change (fun resultado valor : Z => add resultado valor) with U64.uadd.
  apply fold_uadd.
Qed.

Lemma sum_in_range (l : list Z) : U64.in_range (sum l).
Proof.
  rewrite sum_exact_total. apply wrap_range.
Qed.






(** On integers the scan of [max] computes the greatest element. *)
Lemma max_step_Zmax (m v : Z) : max_step m v = Z.max m v.
Proof.
  unfold max_step, gt, Z_Comparable, U64.ugt.
  destruct (Z.gtb_spec v m); lia.
Qed.

Lemma max_scan_bounds (l : list Z) (m : Z) :
  m <= fold_left max_step l m
  /\ Forall (fun y => y <= fold_left max_step l m) l.
Proof.
  revert m.
  induction l as [| v l IH]; intros m; cbn [fold_left].
  - split; [lia | constructor].
  - destruct (IH (max_step m v)) as [Hseed Hrest].
    pose proof (max_step_Zmax m v) as Hstep.
    split; [lia |].
    constructor; [lia | exact Hrest].
Qed.

Lemma max_upper_bound (l : list Z) (y : Z) : In y l -> y <= max l.
Proof.
  destruct l as [| primero resto]; intros Hin.
  - destruct Hin.
  - rewrite max_cons.
    destruct (max_scan_bounds resto primero) as [Hseed Hrest].
    destruct Hin as [<- | Hin].
    + exact Hseed.
    + rewrite Forall_forall in Hrest. apply Hrest. exact Hin.
Qed.


(** *** Division by the count on integers *)

Lemma udiv_count (a : Z) (l : list Z) :
  l <> [] -> U64.udiv a (size l) = Some (a ÷ Z.of_nat (length l)).
Proof.
  intros Hne. unfold U64.udiv.
  rewrite (size_nonempty l Hne).
  unfold size. rewrite nat_N_Z. reflexivity.
Qed.

Lemma unsigned_mean (l : list Z) :
  l <> [] -> mean l = Some (sum l ÷ Z.of_nat (length l)).
Proof.
  intros Hne.
  rewrite (mean_nonempty l Hne).
  apply udiv_count. exact Hne.
Qed.

(** For in-range arguments the pack fold and the container fold agree. *)
Lemma unsigned_sum_variadic (a1 : Z) (rest : list Z) :
  U64.in_range a1 -> sum_variadic (a1 :: rest) = Some (sum (a1 :: rest)).
Proof.
  intros Ha1.
  unfold sum_variadic. f_equal.
  change (@add Z _) with U64.uadd.
  rewrite sum_exact_total.
  rewrite <- (wrap_small a1 Ha1) at 1.
  apply fold_uadd.
Qed.

Lemma truncated_quotient_bounds (s n : Z) :
  0 <= s -> 0 < n -> (s ÷ n) * n <= s < (s ÷ n) * n + n.
Proof.
  intros Hs Hn.
  pose proof (Z.quot_rem' s n) as Hqr.
  pose proof (Z.rem_bound_pos s n Hs Hn) as Hrem.
  lia.
Qed.

Lemma exact_total_repeat (x : Z) (n : nat) :
  fold_right Z.add 0 (repeat x n) = Z.of_nat n * x.
Proof.
  induction n as [| n IH].
  - reflexivity.
  - cbn [repeat fold_right]. rewrite IH. lia.
Qed.

Lemma unsigned_mean_constant (x : Z) (n : nat) :
  n <> 0%nat -> 0 <= x -> Z.of_nat n * x < U64.modulus ->
  mean (repeat x n) = Some x.
Proof.
  intros Hn Hx Hfit.
  assert (Hne : repeat x n <> []).
  { destruct n; [contradiction | discriminate]. }
  rewrite (unsigned_mean _ Hne), repeat_length.
  rewrite sum_exact_total, exact_total_repeat.
  rewrite wrap_small by (unfold U64.in_range; lia).
  f_equal.
  rewrite Z.mul_comm. apply Z.quot_mul. lia.
Qed.

(** Without wrap-around in the total, the variance of [n] copies of an
    unsigned [x] is zero. *)
Lemma unsigned_variance_constant (x : Z) (n : nat) :
  n <> 0%nat -> 0 <= x -> Z.of_nat n * x < U64.modulus ->
  variance (repeat x n) = Some 0.
Proof.
  intros Hn Hx Hfit.
  rewrite (variance_of_repeat x x n (unsigned_mean_constant x n Hn Hx Hfit)).
  rewrite constant_accumulation.
  - change (@count_div Z Z _) with U64.udiv. unfold U64.udiv.
    destruct (N.eqb_spec (N.of_nat n) 0) as [H0 | Hpos]; [lia |].
    rewrite Z.quot_0_l by lia. reflexivity.
  - unfold squared_deviation. cbn.
    unfold U64.usub. rewrite Z.sub_diag. reflexivity.
  - reflexivity.
Qed.

(** *** The claims on integral elements *)


(** On [unsigned long], the integral element type that is [Divisible], the
    code does what C9 says: for a non-empty sequence [mean] and
    [mean_variadic] return the quotient of the sum by the count truncated
    toward zero, and [variance] divides (again truncating) the sum of the
    squared deviations taken from that truncated mean. *)
Theorem integral_mean_truncates (a1 : Z) (rest : list Z) :
  Forall U64.in_range (a1 :: rest) ->
  let l := a1 :: rest in
  let n := Z.of_nat (length l) in
  let q := sum l ÷ n in
  mean l = Some q
  /\ @mean_variadic Z Z _ _ l = Some q
  /\ q * n <= sum l < q * n + n
  /\ variance l
     = Some (sum (map (fun valor =>
                         U64.umul (U64.usub valor q) (U64.usub valor q)) l)
             ÷ n).
Proof.
  intros Hrange l n q.
  assert (Hne : l <> []) by discriminate.
  assert (Hmean : mean l = Some q) by (apply unsigned_mean; exact Hne).
  split; [exact Hmean |].
  split.
  - assert (Hpack : sum_variadic l = Some (sum l)).
    { apply unsigned_sum_variadic. inversion Hrange; assumption. }
    unfold mean_variadic.
    rewrite Hpack. simpl bind.
    apply udiv_count. exact Hne.
  - split.
    + apply truncated_quotient_bounds.
      * apply sum_in_range.
      * subst n l. cbn [length]. lia.
    + rewrite (variance_two_pass l Hne).
      unfold two_pass_variance.
      rewrite <- (mean_nonempty l Hne), Hmean.
      simpl bind.
      apply (udiv_count _ l Hne).
Qed.

End Unsigned.

(** ** The fold of [sum_variadic] *)

Section PackSum.
Context {T : Type} `{AD : Addable T}.

Lemma sum_variadic_empty : sum_variadic (@nil T) = None.
Proof. reflexivity. Qed.

Lemma sum_variadic_left_fold (a1 : T) (rest : list T) :
  sum_variadic (a1 :: rest) = Some (fold_left add rest a1).
Proof. reflexivity. Qed.

(** The left fold of the code and the right fold agree for an associative
    addition, as on the integral types. *)
Lemma left_fold_is_right_fold_when_associative :
  (forall a b c : T, add (add a b) c = add a (add b c)) ->
  forall (rest : list T) (a1 : T),
    fold_left add rest a1 = right_fold_sum a1 rest.
Proof.
  intros Hassoc rest.
  induction rest as [| a2 rest IH]; intros a1; simpl.
  - reflexivity.
  - rewrite IH.
    destruct rest as [| a3 rest]; simpl.
    + reflexivity.
    + apply Hassoc.
Qed.

End PackSum.

(** ** Concrete runs *)

Section Runs.
Local Open Scope float_scope.

(** C2 (the code departs from it).  On [double] arguments
    [sum_variadic(1.0, 2^53, -2^53)] is [(1.0 + 2^53) + -2^53 = 0.0], the
    left fold, while the right fold [1.0 + (2^53 + -2^53)] is [1.0]. *)
Theorem sum_variadic_folds_left :
  sum_variadic [1; 9007199254740992; -9007199254740992] = Some 0
  /\ right_fold_sum 1 [9007199254740992; -9007199254740992] = 1
  /\ sum_variadic [1; 9007199254740992; -9007199254740992]
     <> Some (right_fold_sum 1 [9007199254740992; -9007199254740992]).
Proof.
  split; [reflexivity |].
  split; [reflexivity |].
  vm_compute. intros H. discriminate H.
Qed.

(** C1 (the code departs from it).  The [Vector3D] arguments [(0,5,0)] and
    [(3,4,0)] have equal magnitude, so they are tied and both maximal.
    [max] returns the earlier one, as the claim says; [max_variadic]
    returns the later one, because [max_aux] gives up its first argument
    unless it is strictly greater. *)
Lemma max_variadic_tie_counterexample :
  let a := mkVector3D 0 5 0 in
  let b := mkVector3D 3 4 0 in
  tied a b
  /\ maximal [a; b] a
  /\ maximal [a; b] b
  /\ max [a; b] = a
  /\ max_variadic a [b] = b
  /\ max_variadic a [b] <> a.
Proof.
  intros a b.
  split; [split; reflexivity |].
  split; [intros y [<- | [<- | []]]; reflexivity |].
  split; [intros y [<- | [<- | []]]; reflexivity |].
  split; [reflexivity |].
  split; [reflexivity |].
  vm_compute. intros H. discriminate H.
Qed.

Lemma max_tie_breaking_witness :
  max [mkVector3D 1 1 1; mkVector3D 0 5 0; mkVector3D 3 4 0]
  = mkVector3D 0 5 0
  /\ max_variadic (mkVector3D 1 1 1) [mkVector3D 0 5 0; mkVector3D 3 4 0]
     = mkVector3D 3 4 0.
Proof.
  split.
  - apply (proj1 (@max_tie_breaking Vector3D _ _)
             [mkVector3D 1 1 1] [mkVector3D 3 4 0] (mkVector3D 0 5 0)).
    + repeat constructor.
    + repeat constructor.
  - apply (proj2 (@max_tie_breaking Vector3D _ _)
             (mkVector3D 1 1 1) [mkVector3D 0 5 0; mkVector3D 3 4 0]
             [mkVector3D 1 1 1; mkVector3D 0 5 0] [] (mkVector3D 3 4 0)).
    + reflexivity.
    + repeat constructor.
    + constructor.
Defined.

Lemma mean_is_sum_over_count_witness :
  [1; 2; 3; 4; 5] <> []
  /\ mean [1; 2; 3; 4; 5] = count_div (sum [1; 2; 3; 4; 5]) 5%N.
Proof.
  split.
  - discriminate.
  - apply (mean_is_sum_over_count [1; 2; 3; 4; 5]). discriminate.
Defined.


(** The same happens to a constant sequence of [double]s: the mean of three
    copies of [0.1] is not [0.1], and the variance is not zero. *)
Example double_constant_variance :
  mean [0x1.999999999999ap-4; 0x1.999999999999ap-4; 0x1.999999999999ap-4]
  = Some 0x1.999999999999bp-4
  /\ variance
       [0x1.999999999999ap-4; 0x1.999999999999ap-4; 0x1.999999999999ap-4]
     <> Some 0.
Proof.
  split; [reflexivity |].
  vm_compute. intros H. discriminate H.
Qed.

Lemma max_result_is_member_witness :
  In (max [mkVector3D 1 1 1; mkVector3D 2 2 2; mkVector3D 0 5 0])
     [mkVector3D 1 1 1; mkVector3D 2 2 2; mkVector3D 0 5 0]
  /\ In (max_variadic (mkInt 10) [mkInt 5; mkInt 20; mkInt 1])
        [mkInt 10; mkInt 5; mkInt 20; mkInt 1].
Proof.
  split.
  - apply (proj1 (@max_result_is_member Vector3D _ _)). discriminate.
  - apply (proj2 (@max_result_is_member Int _ _)).
Defined.

End Runs.

Section IntegralRuns.
Local Open Scope Z_scope.

(** C7 (counterexample).  Three copies of [(2^64 + 2) / 3] total [2] after
    wrap-around, so their mean is [0] and their variance is not zero. *)
Lemma variance_constant_counterexample :
  U64.in_range 6148914691236517206
  /\ sum (repeat 6148914691236517206 3) = 2
  /\ mean (repeat 6148914691236517206 3) = Some 0
  /\ variance (repeat 6148914691236517206 3) = Some 4099276460824344804
  /\ variance (repeat 6148914691236517206 3) <> Some value_init.
Proof.
  split; [split; [discriminate | reflexivity] |].
  split; [reflexivity |].
  split; [reflexivity |].
  split; [reflexivity |].
  vm_compute. intros H. discriminate H.
Qed.

(** The integral division faults on a zero count, and the empty-sequence
    guards return before reaching it. *)
Example empty_sequence_no_division :
  U64.udiv 0 (size (@nil Z)) = None
  /\ mean (@nil Z) = Some 0
  /\ variance (@nil Z) = Some 0.
Proof. repeat split. Qed.

Lemma variance_constant_sequence_witness :
  variance (repeat 7 3) = Some 0.
Proof.
  apply (@variance_constant_sequence Z _ _ _ _ 7 3).
  - discriminate.
  - reflexivity.
  - reflexivity.
  - reflexivity.
  - reflexivity.
Defined.


Lemma integral_mean_truncates_witness :
  mean [1; 2] = Some 1
  /\ @mean_variadic Z Z _ _ [1; 2] = Some 1
  /\ 1 * 2 <= sum [1; 2] < 1 * 2 + 2
  /\ variance [1; 2] = Some 0.
Proof.
  apply (integral_mean_truncates 1 [2]).
  repeat constructor; discriminate.
Defined.

(** The truncated mean changes the variance: the exact mean of
    [0, 0, 0, 3] is [3/4] and the exact variance [27/16], which truncates
    to [1]; the code takes the deviations from [0] and returns [9 / 4 = 2]. *)
Example integral_variance_from_truncated_mean :
  mean [0; 0; 0; 3] = Some 0 /\ variance [0; 0; 0; 3] = Some 2.
Proof. split; reflexivity. Qed.

(** On [int] arguments [mean_variadic] converts the sum to [std::size_t]
    and truncates there. *)
Lemma mean_variadic_int_quotient (a1 : Int) (rest : list Int) :
  @mean_variadic Int Z _ _ (a1 :: rest)
  = Some (U64.wrap (int_val (fold_left I32.iadd rest a1))
          ÷ Z.of_nat (length (a1 :: rest))).
Proof.
  unfold mean_variadic, sum_variadic. simpl bind.
  change (@count_div Int Z _) with I32.idiv. unfold I32.idiv.
  change (@add Int _) with I32.iadd.
  unfold U64.udiv.
  rewrite (size_cons_nonzero a1 rest).
  unfold size. rewrite nat_N_Z. reflexivity.
Qed.

(** C9 (the code departs from it).  On the [int] arguments [-1] and [-2]
    the sum is [-3], whose quotient by the count [2] truncated toward zero
    is [-1].  [mean_variadic] converts the sum to [std::size_t] before it
    divides and returns [9223372036854775806]. *)
Theorem mean_variadic_int_not_truncated_quotient :
  sum_variadic [mkInt (-1); mkInt (-2)] = Some (mkInt (-3))
  /\ (-3) ÷ 2 = -1
  /\ @mean_variadic Int Z _ _ [mkInt (-1); mkInt (-2)]
     = Some 9223372036854775806
  /\ @mean_variadic Int Z _ _ [mkInt (-1); mkInt (-2)] <> Some ((-3) ÷ 2).
Proof.
  split; [reflexivity |].
  split; [reflexivity |].
  split; [reflexivity |].
  vm_compute. intros H. discriminate H.
Qed.

Example mean_variadic_int :
  @mean_variadic Int Z _ _ [mkInt 1; mkInt 2] = Some 1
  /\ @mean_variadic Int Z _ _ [mkInt (-1); mkInt (-2)]
     = Some 9223372036854775806.
Proof. split; reflexivity. Qed.

End IntegralRuns.

(** ** Further properties of the scans *)

Section Scans.
Context {T : Type}.
Context `{VI : ValueInit T, CM : Comparable T}.

(** A scan that either keeps its running value (and then [K] relates it to
    the visited element) or takes the visited element ends on an element
    that [K] relates to everything visited after it. *)
Lemma scan_last_change (step : T -> T -> T) (K : T -> T -> Prop) :
  (forall m v, (step m v = m /\ K m v) \/ step m v = v) ->
  forall (l : list T) (m : T),
    exists l1 l2,
      m :: l = l1 ++ fold_left step l m :: l2
      /\ Forall (K (fold_left step l m)) l2.
Proof.
  intros Hstep l.
  induction l as [| v l IH] using rev_ind; intros m.
  - exists [], []. split; [reflexivity | constructor].
  - rewrite fold_left_app. cbn [fold_left].
    destruct (Hstep (fold_left step l m) v) as [[Hkeep HK] | Htake].
    + rewrite Hkeep.
      destruct (IH m) as [l1 [l2 [Hsplit Hlater]]].
      exists l1, (l2 ++ [v]). split.
      * rewrite app_comm_cons, Hsplit, <- app_assoc. reflexivity.
      * apply Forall_app. split; [exact Hlater | repeat constructor; exact HK].
    + rewrite Htake.
      exists (m :: l), []. split; [reflexivity | constructor].
Qed.

Lemma max_step_cases (m v : T) :
  (max_step m v = m /\ gt v m = false) \/ max_step m v = v.
Proof.
  unfold max_step. destruct (gt v m); [right | left; split]; reflexivity.
Qed.

Lemma max_aux_cases (m v : T) :
  (max_aux m v = m /\ gt m v = true) \/ max_aux m v = v.
Proof.
  unfold max_aux. destruct (gt m v); [left; split | right]; reflexivity.
Qed.

(** X1.  Whatever the comparison, the element [max] returns is exceeded by
    no element after it, and the argument [max_variadic] returns is strictly
    greater than every argument after it. *)
Theorem scan_result_position :
  (forall l : list T, l <> [] ->
     exists l1 l2,
       l = l1 ++ max l :: l2
       /\ Forall (fun y => gt y (max l) = false) l2)
  /\
  (forall (first : T) (rest : list T),
     exists l1 l2,
       first :: rest = l1 ++ max_variadic first rest :: l2
       /\ Forall (fun y => gt (max_variadic first rest) y = true) l2).
Proof.
  split.
  - intros [| primero resto] Hne; [contradiction |].
    rewrite max_cons.
    apply (scan_last_change max_step (fun m v => gt v m = false)
             max_step_cases resto primero).
  - intros first rest.
    rewrite max_variadic_fold.
    apply (scan_last_change max_aux (fun m v => gt m v = true)
             max_aux_cases rest first).
Qed.

(** *** Strict weak orders *)

Section StrictWeakOrder.
Hypothesis gt_asymmetric :
  forall a b : T, gt a b = true -> gt b a = false.
Hypothesis gt_negatively_transitive :
  forall a b c : T, gt a b = true -> gt a c = true \/ gt c b = true.

Lemma gt_irreflexive (a : T) : gt a a = false.
Proof.
  destruct (gt a a) eqn:Haa; [| reflexivity].
  rewrite (gt_asymmetric a a Haa) in Haa. discriminate Haa.
Qed.

Lemma max_step_maximal (seen : list T) (m v : T) :
  maximal seen m -> maximal (seen ++ [v]) (max_step m v).
Proof.
  intros Hm y Hy. unfold max_step.
  apply in_app_or in Hy.
  destruct (gt v m) eqn:Hvm.
  - destruct Hy as [Hy | [<- | []]]; [| apply gt_irreflexive].
    destruct (gt y v) eqn:Hyv; [| reflexivity].
    destruct (gt_negatively_transitive y v m Hyv) as [Hym | Hmv].
    + rewrite (Hm y Hy) in Hym. discriminate Hym.
    + rewrite (gt_asymmetric v m Hvm) in Hmv. discriminate Hmv.
  - destruct Hy as [Hy | [<- | []]]; [apply Hm; exact Hy | exact Hvm].
Qed.

Lemma max_aux_maximal (seen : list T) (m v : T) :
  maximal seen m -> maximal (seen ++ [v]) (max_aux m v).
Proof.
  intros Hm y Hy. unfold max_aux.
  apply in_app_or in Hy.
  destruct (gt m v) eqn:Hmv.
  - destruct Hy as [Hy | [<- | []]]; [apply Hm; exact Hy |].
    apply gt_asymmetric. exact Hmv.
  - destruct Hy as [Hy | [<- | []]]; [| apply gt_irreflexive].
    destruct (gt y v) eqn:Hyv; [| reflexivity].
    destruct (gt_negatively_transitive y v m Hyv) as [Hym | Hmv'].
    + rewrite (Hm y Hy) in Hym. discriminate Hym.
    + rewrite Hmv in Hmv'. discriminate Hmv'.
Qed.

Lemma scan_maximal (step : T -> T -> T) :
  (forall seen m v, maximal seen m -> maximal (seen ++ [v]) (step m v)) ->
  forall (l seen : list T) (m : T),
    maximal seen m -> maximal (seen ++ l) (fold_left step l m).
Proof.
  intros Hstep l.
  induction l as [| v l IH]; intros seen m Hm; cbn [fold_left].
  - rewrite app_nil_r. exact Hm.
  - replace (seen ++ v :: l) with ((seen ++ [v]) ++ l)
      by (rewrite <- app_assoc; reflexivity).
    apply IH. apply Hstep. exact Hm.
Qed.

Lemma singleton_maximal (a : T) : maximal [a] a.
Proof.
  intros y [<- | []]. apply gt_irreflexive.
Qed.

(** X2.  When [>] is a strict weak order, [max] on a non-empty sequence and
    [max_variadic] return a maximal element: no element of the input
    compares strictly greater than the result. *)
Theorem scan_result_maximal :
  (forall l : list T, l <> [] -> maximal l (max l))
  /\ (forall (first : T) (rest : list T),
        maximal (first :: rest) (max_variadic first rest)).
Proof.
  split.
  - intros [| primero resto] Hne; [contradiction |].
    rewrite max_cons.
    apply (scan_maximal max_step max_step_maximal resto [primero] primero).
    apply singleton_maximal.
  - intros first rest.
    rewrite max_variadic_fold.
    apply (scan_maximal max_aux max_aux_maximal rest [first] first).
    apply singleton_maximal.
Qed.

End StrictWeakOrder.

(** *** Total orders *)

Lemma fold_left_same_step (f g : T -> T -> T) :
  (forall m v, f m v = g m v) ->
  forall (l : list T) (m : T), fold_left f l m = fold_left g l m.
Proof.
  intros Hfg l.
  induction l as [| v l IH]; intros m; cbn [fold_left].
  - reflexivity.
  - rewrite Hfg. apply IH.
Qed.

(** X3.  When [>] is asymmetric and only equal values are tied, as for the
    built-in integers, [max_variadic] and [max] return the same value on the
    same elements. *)
Theorem max_variadic_agrees_with_max :
  (forall a b : T, gt a b = true -> gt b a = false) ->
  (forall a b : T, gt a b = false -> gt b a = false -> a = b) ->
  forall (first : T) (rest : list T),
    max_variadic first rest = max (first :: rest).
Proof.
  intros Hasym Htie first rest.
  rewrite max_variadic_fold, max_cons.
  apply fold_left_same_step.
  intros m v. unfold max_aux, max_step.
  destruct (gt m v) eqn:Hmv.
  - rewrite (Hasym m v Hmv). reflexivity.
  - destruct (gt v m) eqn:Hvm; [reflexivity |].
    apply Htie; assumption.
Qed.

End Scans.

(** ** Further properties of the folds *)

Section Folds.
Context {T : Type}.
Context `{VI : ValueInit T, AD : Addable T, DV : Divisible T}.

(** X4.  When adding the first argument to the value-initialised element
    gives that argument back, the pack algorithms agree with the container
    ones: [sum_variadic] returns the [sum] of its arguments and
    [mean_variadic] their [mean]. *)
Theorem variadic_agrees_with_container (a1 : T) (rest : list T) :
  add value_init a1 = a1 ->
  sum_variadic (a1 :: rest) = Some (sum (a1 :: rest))
  /\ mean_variadic (a1 :: rest) = mean (a1 :: rest).
Proof.
  intros Hseed.
  assert (Hsum : sum_variadic (a1 :: rest) = Some (sum (a1 :: rest))).
  { unfold sum_variadic, sum. cbn [fold_left].
    rewrite Hseed. reflexivity. }
  split; [exact Hsum |].
  unfold mean_variadic. rewrite Hsum. simpl bind.
  symmetry. apply mean_nonempty. discriminate.
Qed.

(** X5.  Mapping a sequence and then transforming it is one
    [transform_reduce] with the composed function, and the identity
    transformation gives [sum]. *)
Theorem transform_reduce_composes (l : list T) (f g : T -> T) :
  transform_reduce (map g l) f = transform_reduce l (fun valor => f (g valor))
  /\ transform_reduce l (fun valor => valor) = sum l.
Proof.
  split.
  - unfold transform_reduce.
    rewrite (fold_add_map f (map g l)),
            (fold_add_map (fun valor => f (g valor)) l).
    rewrite map_map. reflexivity.
  - reflexivity.
Qed.

End Folds.

(** ** Further properties on unsigned integral elements *)

Section UnsignedMore.
Local Open Scope Z_scope.

Lemma exact_total_app (l1 l2 : list Z) :
  fold_right Z.add 0 (l1 ++ l2)
  = fold_right Z.add 0 l1 + fold_right Z.add 0 l2.
Proof.
  induction l1 as [| v l1 IH]; cbn [app fold_right].
  - reflexivity.
  - rewrite IH. lia.
Qed.

Lemma exact_total_nonneg (l : list Z) :
  Forall U64.in_range l -> 0 <= fold_right Z.add 0 l.
Proof.
  induction 1 as [| v l Hv _ IH]; cbn [fold_right].
  - lia.
  - unfold U64.in_range in Hv. lia.
Qed.

Lemma exact_total_bounds (l : list Z) (lo hi : Z) :
  Forall (fun y => lo <= y <= hi) l ->
  Z.of_nat (length l) * lo <= fold_right Z.add 0 l
                           <= Z.of_nat (length l) * hi.
Proof.
  induction 1 as [| v l Hv _ IH]; cbn [fold_right length].
  - lia.
  - rewrite Nat2Z.inj_succ. lia.
Qed.

Lemma sum_without_wrap (l : list Z) :
  Forall U64.in_range l ->
  fold_right Z.add 0 l < U64.modulus ->
  sum l = fold_right Z.add 0 l.
Proof.
  intros Hrange Hfit.
  rewrite sum_exact_total.
  apply wrap_small. split; [apply exact_total_nonneg; exact Hrange | exact Hfit].
Qed.

(** X6.  On [unsigned long] elements [sum] is the exact total reduced
    modulo 2^64, so it is the exact total itself when that fits, and the
    sum of a concatenation is the wrapped sum of the two sums. *)
Theorem unsigned_sum_modular (l1 l2 : list Z) :
  sum l1 = fold_right Z.add 0 l1 mod 2 ^ 64
  /\ (Forall U64.in_range l1 -> fold_right Z.add 0 l1 < 2 ^ 64 ->
      sum l1 = fold_right Z.add 0 l1)
  /\ sum (l1 ++ l2) = U64.uadd (sum l1) (sum l2).
Proof.
  split; [apply sum_exact_total |].
  split; [apply sum_without_wrap |].
  rewrite !sum_exact_total, exact_total_app.
  unfold U64.uadd, U64.wrap.
  apply Zplus_mod.
Qed.

(** X7.  On [unsigned long] elements [max] of a non-empty sequence is its
    greatest element. *)
Theorem unsigned_max_greatest (l : list Z) :
  l <> [] ->
  In (max l) l /\ Forall (fun y => y <= max l) l.
Proof.
  intros Hne. split.
  - apply max_in_sequence. exact Hne.
  - apply Forall_forall. intros y Hy.
    apply max_upper_bound. exact Hy.
Qed.

(** X8.  When the total of a non-empty [unsigned long] sequence does not
    wrap around, its [mean] lies between every lower bound of the elements
    and their [max]. *)
Theorem unsigned_mean_bounds (l : list Z) (lo : Z) :
  l <> [] ->
  Forall U64.in_range l ->
  fold_right Z.add 0 l < U64.modulus ->
  Forall (fun y => lo <= y) l ->
  exists q, mean l = Some q /\ lo <= q <= max l.
Proof.
  intros Hne Hrange Hfit Hlo.
  exists (sum l ÷ Z.of_nat (length l)).
  split; [apply unsigned_mean; exact Hne |].
  rewrite (sum_without_wrap l Hrange Hfit).
  assert (Hn : 0 < Z.of_nat (length l)).
  { destruct l; [contradiction | cbn [length]; lia]. }
  assert (Hbounds : Forall (fun y => lo <= y <= max l) l).
  { rewrite Forall_forall in Hlo. apply Forall_forall. intros y Hy.
    split; [apply Hlo; exact Hy | apply max_upper_bound; exact Hy]. }
  apply exact_total_bounds in Hbounds.
  split.
  - apply Z.quot_le_lower_bound; lia.
  - apply Z.quot_le_upper_bound; lia.
Qed.

(** X9.  For [n >= 1] copies of an [unsigned long] [x] whose total [n * x]
    does not wrap around, [sum] is [n * x], [mean] is [x] and [variance] is
    zero. *)
Theorem unsigned_constant_statistics (x : Z) (n : nat) :
  n <> 0%nat -> 0 <= x -> Z.of_nat n * x < U64.modulus ->
  sum (repeat x n) = Z.of_nat n * x
  /\ mean (repeat x n) = Some x
  /\ variance (repeat x n) = Some 0.
Proof.
  intros Hn Hx Hfit.
  split.
  - rewrite sum_exact_total, exact_total_repeat.
    apply wrap_small. unfold U64.in_range. lia.
  - split.
    + apply unsigned_mean_constant; assumption.
    + apply unsigned_variance_constant; assumption.
Qed.

End UnsignedMore.

(** ** Further properties on [Vector3D] and [double] elements *)

Section FloatingPoint.
Local Open Scope float_scope.

Lemma vector_fold_components (l : list Vector3D) (acc : Vector3D) :
  fold_left Vec.vadd l acc
  = mkVector3D (fold_left PrimFloat.add (map vx l) (vx acc))
               (fold_left PrimFloat.add (map vy l) (vy acc))
               (fold_left PrimFloat.add (map vz l) (vz acc)).
Proof.
  revert acc.
  induction l as [| v l IH]; intros acc; cbn [fold_left map].
  - destruct acc; reflexivity.
  - rewrite IH. reflexivity.
Qed.

Lemma vector_sum_components (l : list Vector3D) :
  sum l = mkVector3D (sum (map vx l)) (sum (map vy l)) (sum (map vz l)).
Proof.
  apply (vector_fold_components l (mkVector3D 0 0 0)).
Qed.

(** X10.  On [Vector3D] elements [sum] and [mean] work component by
    component: each coordinate of the result is the [sum], respectively the
    [mean], of that coordinate over the sequence. *)
Theorem vector_statistics_componentwise (l : list Vector3D) :
  sum l = mkVector3D (sum (map vx l)) (sum (map vy l)) (sum (map vz l))
  /\ mean l
     = (x <- mean (map vx l) ;;
        y <- mean (map vy l) ;;
        z <- mean (map vz l) ;;
        Some (mkVector3D x y z)).
Proof.
  split; [apply vector_sum_components |].
  unfold mean.
  rewrite vector_sum_components.
  unfold size. rewrite !length_map.
  destruct (N.of_nat (length l) =? 0)%N; reflexivity.
Qed.

(** *** Not-a-number *)

Lemma Prim2SF_nan : Prim2SF nan = S754_nan.
Proof. reflexivity. Qed.

Lemma nothing_exceeds_nan (v : float) : gt v nan = false.
Proof.
  change (gt v nan) with (nan <? v).
  rewrite FloatAxioms.ltb_spec, Prim2SF_nan. reflexivity.
Qed.

Lemma nan_exceeds_nothing (v : float) : gt nan v = false.
Proof.
  change (gt nan v) with (v <? nan).
  rewrite FloatAxioms.ltb_spec, Prim2SF_nan.
  unfold SFltb. destruct (Prim2SF v); reflexivity.
Qed.

Lemma add_nan_r (x : float) : x + nan = nan.
Proof.
  apply Prim2SF_inj. rewrite FloatAxioms.add_spec, Prim2SF_nan.
  unfold SF64add, SFadd.
  destruct (Prim2SF x) as [[|] | [|] | |]; reflexivity.
Qed.

Lemma add_nan_l (x : float) : nan + x = nan.
Proof.
  apply Prim2SF_inj. rewrite FloatAxioms.add_spec, Prim2SF_nan. reflexivity.
Qed.

Lemma sub_nan_r (x : float) : x - nan = nan.
Proof.
  apply Prim2SF_inj. rewrite FloatAxioms.sub_spec, Prim2SF_nan.
  unfold SF64sub, SFsub.
  destruct (Prim2SF x) as [[|] | [|] | |]; reflexivity.
Qed.

Lemma div_nan_l (x : float) : nan / x = nan.
Proof.
  apply Prim2SF_inj. rewrite FloatAxioms.div_spec, Prim2SF_nan. reflexivity.
Qed.

Lemma max_scan_from_nan (l : list float) : fold_left max_step l nan = nan.
Proof.
  apply max_scan_keeps.
  apply Forall_forall. intros v _. apply nothing_exceeds_nan.
Qed.

(** X11.  On [double] elements a NaN wins or loses by position, not by
    value.  [max] returns NaN when the first element is NaN and ignores a
    NaN anywhere else; [max_variadic] returns NaN when the last argument is
    NaN, and otherwise forgets every argument up to the NaN. *)
Theorem double_max_nan :
  (forall l : list float, max (nan :: l) = nan)
  /\ (forall (x : float) (l1 l2 : list float),
        max (x :: l1 ++ nan :: l2) = max (x :: l1 ++ l2))
  /\ (forall (first : float) (rest : list float),
        max_variadic first (rest ++ [nan]) = nan)
  /\ (forall (first r : float) (l1 l2 : list float),
        max_variadic first (l1 ++ nan :: r :: l2) = max_variadic r l2).
Proof.
  split; [| split; [| split]].
  - intros l. rewrite max_cons. apply max_scan_from_nan.
  - intros x l1 l2.
    rewrite !max_cons, !fold_left_app. cbn [fold_left].
    unfold max_step at 2.
    rewrite nan_exceeds_nothing. reflexivity.
  - intros first rest.
    rewrite max_variadic_fold, fold_left_app. cbn [fold_left].
    unfold max_aux at 1.
    rewrite nothing_exceeds_nan. reflexivity.
  - intros first r l1 l2.
    rewrite !max_variadic_fold, fold_left_app. cbn [fold_left].
    unfold max_aux at 3.
    rewrite nothing_exceeds_nan.
    unfold max_aux at 2.
    rewrite nan_exceeds_nothing. reflexivity.
Qed.

Lemma add_scan_from_nan (f : float -> float) (l : list float) :
  fold_left (fun resultado valor => resultado + f valor) l nan = nan.
Proof.
  induction l as [| v l IH]; cbn [fold_left].
  - reflexivity.
  - rewrite add_nan_l. exact IH.
Qed.

Lemma add_scan_of_nans (f : float -> float) (l : list float) (acc : float) :
  (forall v, f v = nan) -> l <> [] ->
  fold_left (fun resultado valor => resultado + f valor) l acc = nan.
Proof.
  intros Hf Hne.
  destruct l as [| v l]; [contradiction |].
  cbn [fold_left]. rewrite Hf, add_nan_r.
  apply add_scan_from_nan.
Qed.

Lemma double_sum_nan (l1 l2 : list float) : sum (l1 ++ nan :: l2) = nan.
Proof.
  unfold sum. rewrite fold_left_app. cbn [fold_left].
  change (@add float _) with PrimFloat.add.
  rewrite add_nan_r.
  apply (add_scan_from_nan (fun valor => valor)).
Qed.

(** X12.  On [double] elements one NaN anywhere in the sequence makes
    [sum], [mean] and [variance] all NaN. *)
Theorem double_nan_propagates (l1 l2 : list float) :
  sum (l1 ++ nan :: l2) = nan
  /\ mean (l1 ++ nan :: l2) = Some nan
  /\ variance (l1 ++ nan :: l2) = Some nan.
Proof.
  assert (Hne : l1 ++ nan :: l2 <> []).
  { destruct l1; discriminate. }
  assert (Hmean : mean (l1 ++ nan :: l2) = Some nan).
  { rewrite (mean_nonempty _ Hne), double_sum_nan.
    change (@count_div float float _) with Double.fdiv.
    unfold Double.fdiv. rewrite div_nan_l. reflexivity. }
  split; [apply double_sum_nan |].
  split; [exact Hmean |].
  unfold variance. rewrite Hmean. simpl bind.
  rewrite (size_nonempty _ Hne).
  rewrite (add_scan_of_nans (squared_deviation nan) _ value_init).
  - change (@count_div float float _) with Double.fdiv.
    unfold Double.fdiv. rewrite div_nan_l. reflexivity.
  - intros v. unfold squared_deviation. cbn.
    rewrite sub_nan_r. reflexivity.
  - exact Hne.
Qed.

End FloatingPoint.

(** ** The order on [int] and further concrete runs *)

Section MoreRuns.

Lemma igt_asymmetric (a b : Int) : gt a b = true -> gt b a = false.
Proof.
  unfold gt, Int_Comparable, I32.igt.
  rewrite !Z.gtb_ltb, Z.ltb_lt, Z.ltb_ge. lia.
Qed.

Lemma igt_negatively_transitive (a b c : Int) :
  gt a b = true -> gt a c = true \/ gt c b = true.
Proof.
  unfold gt, Int_Comparable, I32.igt.
  rewrite !Z.gtb_ltb, !Z.ltb_lt. lia.
Qed.

Lemma igt_tie_equal (a b : Int) :
  gt a b = false -> gt b a = false -> a = b.
Proof.
  unfold gt, Int_Comparable, I32.igt.
  destruct a as [x], b as [y]. cbn [int_val].
  rewrite !Z.gtb_ltb, !Z.ltb_ge.
  intros Hyx Hxy. f_equal. lia.
Qed.

Lemma scan_result_position_witness :
  (exists l1 l2,
      [mkVector3D 0 5 0; mkVector3D 1 1 1; mkVector3D 3 4 0]
      = l1 ++ max [mkVector3D 0 5 0; mkVector3D 1 1 1; mkVector3D 3 4 0]
           :: l2
      /\ Forall
           (fun y =>
              gt y (max [mkVector3D 0 5 0; mkVector3D 1 1 1;
                         mkVector3D 3 4 0]) = false) l2)
  /\ (exists l1 l2,
        [mkVector3D 0 5 0; mkVector3D 3 4 0; mkVector3D 1 1 1]
        = l1 ++ max_variadic (mkVector3D 0 5 0)
                  [mkVector3D 3 4 0; mkVector3D 1 1 1] :: l2
        /\ Forall
             (fun y =>
                gt (max_variadic (mkVector3D 0 5 0)
                      [mkVector3D 3 4 0; mkVector3D 1 1 1]) y = true) l2).
Proof.
  split.
  - apply (proj1 (@scan_result_position Vector3D _ _)). discriminate.
  - apply (proj2 (@scan_result_position Vector3D _ _)).
Defined.

Lemma scan_result_maximal_witness :
  maximal [mkInt 3; mkInt 9; mkInt 2] (max [mkInt 3; mkInt 9; mkInt 2])
  /\ maximal [mkInt 10; mkInt 5; mkInt 20; mkInt 1]
             (max_variadic (mkInt 10) [mkInt 5; mkInt 20; mkInt 1]).
Proof.
  split.
  - apply (proj1 (@scan_result_maximal Int _ _
                    igt_asymmetric igt_negatively_transitive)).
    discriminate.
  - apply (proj2 (@scan_result_maximal Int _ _
                    igt_asymmetric igt_negatively_transitive)).
Defined.

Lemma max_variadic_agrees_with_max_witness :
  max_variadic (mkInt 10) [mkInt 5; mkInt 20; mkInt 1]
  = max [mkInt 10; mkInt 5; mkInt 20; mkInt 1].
Proof.
  apply (@max_variadic_agrees_with_max Int _ _ igt_asymmetric igt_tie_equal).
Defined.

Lemma variadic_agrees_with_container_witness :
  add value_init 1%float = 1%float
  /\ sum_variadic [1; 2; 3]%float = Some (sum [1; 2; 3]%float)
  /\ mean_variadic [1; 2; 3]%float = mean [1; 2; 3]%float.
Proof.
  split.
  - reflexivity.
  - apply (@variadic_agrees_with_container float _ _ _ 1%float [2; 3]%float).
    reflexivity.
Defined.

Lemma unsigned_sum_modular_witness :
  sum [1; 2]%Z = 3%Z.
Proof.
  apply (proj1 (proj2 (unsigned_sum_modular [1; 2]%Z [3]%Z))).
  - repeat constructor; discriminate.
  - reflexivity.
Defined.

Lemma unsigned_max_greatest_witness :
  In (max [3; 1; 4]%Z) [3; 1; 4]%Z
  /\ Forall (fun y => (y <= max [3; 1; 4]%Z)%Z) [3; 1; 4]%Z.
Proof.
  apply (unsigned_max_greatest [3; 1; 4]%Z). discriminate.
Defined.

Lemma unsigned_mean_bounds_witness :
  exists q, mean [2; 4; 9]%Z = Some q /\ (2 <= q <= max [2; 4; 9]%Z)%Z.
Proof.
  apply (unsigned_mean_bounds [2; 4; 9]%Z 2%Z).
  - discriminate.
  - repeat constructor; discriminate.
  - reflexivity.
  - repeat constructor; discriminate.
Defined.

Lemma unsigned_constant_statistics_witness :
  sum (repeat 7%Z 3) = 21%Z
  /\ mean (repeat 7%Z 3) = Some 7%Z
  /\ variance (repeat 7%Z 3) = Some 0%Z.
Proof.
  apply (unsigned_constant_statistics 7%Z 3).
  - discriminate.
  - discriminate.
  - reflexivity.
Defined.

End MoreRuns.
